(** * angular-http-auth: the request buffer, the interceptor and authService

    A shallow embedding of [src/http-auth-interceptor.js].  The JavaScript
    module keeps its state in closure variables ([buffer], the three
    classifier hooks) and talks to three injected collaborators ([$http],
    [$q], [$rootScope]).  Here the closure state and the collaborators'
    observable state live in one record [World]; every function of the
    source is a computation in a state-and-exception monad over it, and
    callbacks handed in by the host ([updater], the classifier hooks) are
    computations in the same monad, so that they can re-enter the module
    the way a JavaScript callback can. *)

From Stdlib Require Import ZArith Lia.
From stdpp Require Import base option list strings gmap.

Open Scope string_scope.
Open Scope list_scope.

(** ** JavaScript values *)

Inductive JsVal :=
  | VUndefined
  | VNull
  | VBool (b : bool)
  | VNum (n : Z)
  | VNaN
  | VStr (s : string)
  | VObj (ref : nat).

#[global] Instance JsVal_eq_dec : EqDecision JsVal.
Proof. solve_decision. Defined.

(** ToBoolean, as used by [if (x)], [!x] and [x || y]. *)
Definition truthy (v : JsVal) : bool :=
  match v with
  | VUndefined | VNull | VNaN => false
  | VBool b => b
  | VNum n => negb (n =? 0)%Z
  | VStr s => negb (String.eqb s EmptyString)
  | VObj _ => true
  end.

(** A request config is a plain object: a finite map from property names
    to values.  [{}] is the empty map. *)
Abbreviation Config := (gmap string JsVal).

(** Property read [o.name]: an absent property reads as [undefined]. *)
Definition prop (o : Config) (name : string) : JsVal :=
  default VUndefined (o !! name).

(** A transport response, also the rejection handed to [responseError].
    [rej_config] is [None] when [rejection.config] is absent. *)
Record Response := {
  rej_status : JsVal;
  rej_config : option Config;
  rej_data : JsVal
}.

#[global] Instance Response_eq_dec : EqDecision Response.
Proof. solve_decision. Defined.

(** A deferred made by [$q.defer()], named by the order of its creation. *)
Abbreviation Deferred := nat (only parsing).

(** What a deferred is settled with, or an event carries: a plain value
    ([reason], [data]) or a response object. *)
Inductive Arg :=
  | AVal (v : JsVal)
  | AResponse (r : Response).

#[global] Instance Arg_eq_dec : EqDecision Arg.
Proof. solve_decision. Defined.

Inductive Settled :=
  | Pending
  | Resolved (a : Arg)
  | Rejected (a : Arg).

#[global] Instance Settled_eq_dec : EqDecision Settled.
Proof. solve_decision. Defined.

(** An element of [buffer]: [{config: config, deferred: deferred}]. *)
Record Entry := {
  config : Config;
  deferred : Deferred
}.

#[global] Instance Entry_eq_dec : EqDecision Entry.
Proof. solve_decision. Defined.

(** Calls made on the collaborators, in the order they are made. *)
Inductive Event :=
  | EBroadcast (name : string) (payload : Arg)   (* $rootScope.$broadcast *)
  | EHttp (c : Config)                           (* $http(config) *)
  | EResolve (d : Deferred) (a : Arg)            (* deferred.resolve *)
  | EReject (d : Deferred) (a : Arg).            (* deferred.reject *)

#[global] Instance Event_eq_dec : EqDecision Event.
Proof. solve_decision. Defined.

(** ** The world

    - [buffer]: the closure variable of the [httpBuffer] factory;
    - [handles]: the state of every deferred and promise [$q] has made;
    - [next_handle]: the name the next one gets;
    - [thens]: [(p, d)] when [retryHttpRequest] has attached its
      [successCallback]/[errorCallback] pair, closed over [d], to the
      transport promise [p];
    - [trace]: the calls made on the collaborators so far. *)
Record World := {
  buffer : list Entry;
  handles : gmap nat Settled;
  next_handle : nat;
  thens : list (nat * Deferred);
  trace : list Event
}.

Definition set_buffer (b : list Entry) (w : World) : World :=
  {| buffer := b; handles := handles w; next_handle := next_handle w;
     thens := thens w; trace := trace w |}.

Definition set_handles (h : gmap nat Settled) (w : World) : World :=
  {| buffer := buffer w; handles := h; next_handle := next_handle w;
     thens := thens w; trace := trace w |}.

Definition set_next_handle (n : nat) (w : World) : World :=
  {| buffer := buffer w; handles := handles w; next_handle := n;
     thens := thens w; trace := trace w |}.

Definition set_thens (t : list (nat * Deferred)) (w : World) : World :=
  {| buffer := buffer w; handles := handles w; next_handle := next_handle w;
     thens := t; trace := trace w |}.

Definition log (e : Event) (w : World) : World :=
  {| buffer := buffer w; handles := handles w; next_handle := next_handle w;
     thens := thens w; trace := trace w ++ [e] |}.

Definition empty_world : World :=
  {| buffer := []; handles := ∅; next_handle := 0; thens := []; trace := [] |}.

(** ** The monad: state, exceptions, and fuel for the [for] loops *)

Inductive Exn :=
  | TypeError (msg : string)
  | Thrown (v : JsVal).

Inductive Res (A : Type) :=
  | Ok (a : A) (w : World)
  | Throw (e : Exn) (w : World)
  | OutOfFuel.

Arguments Ok {A} a w.
Arguments Throw {A} e w.
Arguments OutOfFuel {A}.

Definition M (A : Type) : Type := World -> Res A.

Definition ret {A} (a : A) : M A := fun w => Ok a w.

Definition bind {A B} (m : M A) (k : A -> M B) : M B :=
  fun w =>
    match m w with
    | Ok a w' => k a w'
    | Throw e w' => Throw e w'
    | OutOfFuel => OutOfFuel
    end.

Definition throw {A} (e : Exn) : M A := fun w => Throw e w.

Definition modify (f : World -> World) : M unit := fun w => Ok tt (f w).

Declare Scope js_scope.
Delimit Scope js_scope with js.
Notation "x <- m ;; k" := (bind m (fun x => k))
  (at level 100, m at next level, right associativity) : js_scope.
Notation "m ;; k" := (bind m (fun _ => k))
  (at level 100, right associativity) : js_scope.
Open Scope js_scope.

(** A value in function position: either a function, or something that
    is not callable. *)
Inductive Callable (A B : Type) :=
  | Fn (f : A -> M B)
  | NotFn (v : JsVal).

Arguments Fn {A B} f.
Arguments NotFn {A B} v.

(** Functions are objects, hence truthy. *)
Definition callable_truthy {A B} (u : Callable A B) : bool :=
  match u with
  | Fn _ => true
  | NotFn v => truthy v
  end.

(** [u(a)]: calling a non-function throws a [TypeError]. *)
Definition call {A B} (u : Callable A B) (a : A) : M B :=
  match u with
  | Fn f => f a
  | NotFn _ => throw (TypeError "updater is not a function")
  end.

(** A side-effect free function seen as a callback. *)
Definition pure_fn {A B} (f : A -> B) : Callable A B := Fn (fun a => ret (f a)).

(** ** The collaborators *)

(** [$rootScope.$broadcast(name, payload)]: fire and forget. *)
Definition broadcast (name : string) (payload : Arg) : M unit :=
  modify (log (EBroadcast name payload)).

(** [$q.defer()]: a new pending deferred. *)
Definition defer : M Deferred :=
  fun w =>
    let d := next_handle w in
    Ok d (set_next_handle (S d) (set_handles (<[d := Pending]> (handles w)) w)).

(** A deferred settles at most once; later calls change nothing. *)
Definition settle (d : Deferred) (s : Settled) (w : World) : World :=
  match handles w !! d with
  | Some Pending => set_handles (<[d := s]> (handles w)) w
  | _ => w
  end.

Definition deferred_resolve (d : Deferred) (a : Arg) : M unit :=
  modify (fun w => log (EResolve d a) (settle d (Resolved a) w)).

Definition deferred_reject (d : Deferred) (a : Arg) : M unit :=
  modify (fun w => log (EReject d a) (settle d (Rejected a) w)).

(** The promise [responseError] returns: either [$q.reject(rejection)],
    born rejected, or [deferred.promise]. *)
Inductive Promise :=
  | QReject (rejection : Response)
  | PromiseOf (d : Deferred).

(** The transport as AngularJS provides it: [$http(config)] records the
    request and returns a new pending promise; nothing completes inside
    the call. *)
Definition angular_http (c : Config) : M nat :=
  fun w =>
    let p := next_handle w in
    Ok p (log (EHttp c)
            (set_next_handle (S p) (set_handles (<[p := Pending]> (handles w)) w))).

(** [promise.then(successCallback, errorCallback)] inside
    [retryHttpRequest d]: both callbacks are closed over [d]. *)
Definition then_ (p : nat) (d : Deferred) : M unit :=
  modify (fun w => set_thens (thens w ++ [(p, d)]) w).

(** ** [httpBuffer] (lines 150-203) *)

(** [buffer.length] and [buffer[i]].  Reading a property of
    [buffer[i]] when [i] is out of range throws. *)
Definition buffer_length : M nat := fun w => Ok (length (buffer w)) w.

Definition buffer_at (i : nat) : M Entry :=
  fun w =>
    match buffer w !! i with
    | Some e => Ok e w
    | None => Throw (TypeError "buffer[i] is undefined") w
    end.

(** [for (var i = start; i < buffer.length; ++i) body(i)].  The bound is
    read again before every iteration, from whatever array [buffer]
    holds then.  The loop need not end when [body] keeps appending, so
    it runs on fuel. *)
Fixpoint for_buffer (fuel : nat) (body : nat -> M unit) (i : nat) : M unit :=
  match fuel with
  | O => fun _ => OutOfFuel
  | S fuel' =>
      len <- buffer_length ;;
      if (i <? len)%nat then body i ;; for_buffer fuel' body (S i) else ret tt
  end.

Definition successCallback (d : Deferred) (response : Response) : M unit :=
  deferred_resolve d (AResponse response).

Definition errorCallback (d : Deferred) (response : Response) : M unit :=
  deferred_reject d (AResponse response).

(** [append]: [buffer.push({config: config, deferred: deferred})]. *)
Definition append (c : Config) (d : Deferred) : M unit :=
  modify (fun w => set_buffer (buffer w ++ [{| config := c; deferred := d |}]) w).

(** [rejectAll(reason)], lines 184-191. *)
Definition rejectAll (fuel : nat) (reason : JsVal) : M unit :=
  (if truthy reason then
     for_buffer fuel
       (fun i => e <- buffer_at i ;; deferred_reject (deferred e) (AVal reason)) 0
   else ret tt) ;;
  modify (set_buffer []).

Section Transport.

(** The [$http] service the injector hands out. *)
Variable http : Config -> M nat.

(** [retryHttpRequest(config, deferred)], lines 159-168. *)
Definition retryHttpRequest (c : Config) (d : Deferred) : M unit :=
  p <- http c ;; then_ p d.

(** The body of the loop of [retryAll].  The arguments of the call are
    evaluated left to right: [buffer[i].config], the call of
    [updater], and only then [buffer[i].deferred]. *)
Definition retryAll_body (updater : Callable Config Config) (i : nat) : M unit :=
  e <- buffer_at i ;;
  c <- call updater (config e) ;;
  e' <- buffer_at i ;;
  retryHttpRequest c (deferred e').

(** [retryAll(updater)], lines 196-201. *)
Definition retryAll (fuel : nat) (updater : Callable Config Config) : M unit :=
  for_buffer fuel (retryAll_body updater) 0 ;;
  modify (set_buffer []).

(** ** [authService] (lines 31-91) *)

(** [loginConfirmed(data, configUpdater)], lines 74-78. *)
Definition loginConfirmed (fuel : nat) (data : JsVal)
    (configUpdater : Callable Config Config) : M unit :=
  let updater :=
    if callable_truthy configUpdater then configUpdater
    else Fn (fun c => ret c) in
  broadcast "event:auth-loginConfirmed" (AVal data) ;;
  retryAll fuel updater.

End Transport.

(** [loginCancelled(data, reason)], lines 86-89. *)
Definition loginCancelled (fuel : nat) (data reason : JsVal) : M unit :=
  rejectAll fuel reason ;;
  broadcast "event:auth-loginCancelled" (AVal data).

(** The three module-level hooks, lines 17-27, and their setters. *)
Record Classifier := {
  responseErrorFilter : Response -> M JsVal;
  requestFilter : Config -> M JsVal;
  requestPreprocessor : Config -> M Config
}.

Definition default_classifier : Classifier :=
  {| responseErrorFilter := fun _ => ret (VBool true);
     requestFilter := fun _ => ret (VBool false);
     requestPreprocessor := fun requestConfig => ret requestConfig |}.

Definition setResponseErrorFilter (func : Response -> M JsVal) (cl : Classifier) :=
  {| responseErrorFilter := func;
     requestFilter := requestFilter cl;
     requestPreprocessor := requestPreprocessor cl |}.

Definition setRequestFilter (func : Config -> M JsVal) (cl : Classifier) :=
  {| responseErrorFilter := responseErrorFilter cl;
     requestFilter := func;
     requestPreprocessor := requestPreprocessor cl |}.

Definition setRequestPreprocessor (func : Config -> M Config) (cl : Classifier) :=
  {| responseErrorFilter := responseErrorFilter cl;
     requestFilter := requestFilter cl;
     requestPreprocessor := func |}.

(** ** The interceptor (lines 104-144) *)

(** The config [responseError] works on: [rejection.config || {}]. *)
Definition config_of (rejection : Response) : Config :=
  default ∅ (rej_config rejection).

Definition request (cl : Classifier) (c : Config) : M Config :=
  v <- requestFilter cl c ;;
  if negb (truthy v) then ret c else requestPreprocessor cl c.

(** [responseError(rejection)], lines 116-142.  [switch] compares with
    [===], so only the number 400, 401 or 403 selects a case. *)
Definition responseError (cl : Classifier) (rejection : Response) : M Promise :=
  v <- responseErrorFilter cl rejection ;;
  if negb (truthy v) then ret (QReject rejection)
  else
    let c := config_of rejection in
    if negb (truthy (prop c "ignoreAuthModule")) then
      if decide (rej_status rejection = VNum 400) then
        d <- defer ;;
        append c d ;;
        broadcast "event:auth-missingParameter" (AResponse rejection) ;;
        ret (PromiseOf d)
      else if decide (rej_status rejection = VNum 401) then
        d <- defer ;;
        append c d ;;
        broadcast "event:auth-loginRequired" (AResponse rejection) ;;
        ret (PromiseOf d)
      else if decide (rej_status rejection = VNum 403) then
        broadcast "event:auth-forbidden" (AResponse rejection) ;;
        ret (QReject rejection)
      else ret (QReject rejection)
    else ret (QReject rejection).

(** ** The transport answering later

    Not part of the module: what [$q] does when the transport promise
    [p] settles.  Every callback pair attached to [p] runs, in the order
    of attachment. *)
Fixpoint run_thens (p : nat) (ok : bool) (response : Response)
    (l : list (nat * Deferred)) : M unit :=
  match l with
  | [] => ret tt
  | (q, d) :: l' =>
      (if decide (q = p) then
         if ok then successCallback d response else errorCallback d response
       else ret tt) ;;
      run_thens p ok response l'
  end.

Definition transport_settles (p : nat) (ok : bool) (response : Response) : M unit :=
  fun w =>
    let s := if ok then Resolved (AResponse response) else Rejected (AResponse response) in
    run_thens p ok response (thens w) (settle p s w).

(** ** Small worlds to run the definitions on *)

Definition cfg (url : string) : Config := {[ "url" := VStr url ]}.

Definition entry (url : string) (d : Deferred) : Entry :=
  {| config := cfg url; deferred := d |}.

(** A world in which [es] are parked, each on a pending deferred. *)
Definition parked (es : list Entry) : World :=
  {| buffer := es;
     handles := list_to_map ((fun e => (deferred e, Pending)) <$> es);
     next_handle := S (foldr Nat.max 0 (deferred <$> es));
     thens := [];
     trace := [] |}.

Definition rejection_with (status : Z) (c : Config) : Response :=
  {| rej_status := VNum status; rej_config := Some c; rej_data := VNull |}.

(** The event a parking status is announced with. *)
Definition parking_event (status : JsVal) : string :=
  if decide (status = VNum 400) then "event:auth-missingParameter"
  else "event:auth-loginRequired".

(** The two events of [authService]. *)
Definition confirmed (data : JsVal) : Event :=
  EBroadcast "event:auth-loginConfirmed" (AVal data).

Definition cancelled (data : JsVal) : Event :=
  EBroadcast "event:auth-loginCancelled" (AVal data).

(** What one [retryHttpRequest(c, d)] over [angular_http] does to the
    world, written out. *)
Definition issue (c : Config) (d : Deferred) (w : World) : World :=
  let p := next_handle w in
  set_thens (thens w ++ [(p, d)])
    (log (EHttp c)
       (set_next_handle (S p) (set_handles (<[p := Pending]> (handles w)) w))).

Definition issued (g : Entry -> Config) (l : list Entry) (w : World) : World :=
  fold_left (fun w e => issue (g e) (deferred e) w) l w.

(** What one [deferred.reject(a)] does to the world, and a run of them. *)
Definition rejected_one (a : Arg) (w : World) (e : Entry) : World :=
  log (EReject (deferred e) a) (settle (deferred e) (Rejected a) w).

Definition rejected (a : Arg) (l : list Entry) (w : World) : World :=
  fold_left (rejected_one a) l w.



(** A callback that re-enters the module: on the config [trigger] it
    parks one more request before returning its argument. *)
Definition appending_updater (trigger : Config) (e3 : Entry) : Callable Config Config :=
  Fn (fun c =>
        if decide (c = trigger) then append (config e3) (deferred e3) ;; ret c
        else ret c).

(** ** Further worlds, callbacks and the invariant of the buffer *)

(** What [successCallback] and [errorCallback] settle a deferred with. *)
Definition outcome (ok : bool) (response : Response) : Settled :=
  if ok then Resolved (AResponse response) else Rejected (AResponse response).

(** The world [responseError] leaves when it parks [rejection] in [w1]:
    lines 126-128 and 131-133 written out. *)
Definition park (rejection : Response) (w1 : World) : World :=
  let d := next_handle w1 in
  log (EBroadcast (parking_event (rej_status rejection)) (AResponse rejection))
    (set_buffer (buffer w1 ++ [{| config := config_of rejection; deferred := d |}])
       (set_next_handle (S d) (set_handles (<[d := Pending]> (handles w1)) w1))).

(** An updater that calls [httpBuffer.rejectAll(reason)] before it
    returns its argument. *)
Definition cancelling_updater (fuel : nat) (reason : JsVal) : Callable Config Config :=
  Fn (fun c => rejectAll fuel reason ;; ret c).

(** An updater that parks one more request on every call. *)
Definition parking_updater (c' : Config) (d' : Deferred) : Callable Config Config :=
  Fn (fun c => append c' d' ;; ret c).

(** The state the module keeps between calls:
    - every buffered deferred is pending and was made by [$q];
    - every attached pair names a promise and a deferred made by [$q],
      neither of which is buffered. *)
Definition well_formed (w : World) : Prop :=
  Forall (fun e => handles w !! deferred e = Some Pending /\ deferred e < next_handle w)
    (buffer w) /\
  Forall (fun pd : nat * nat =>
            pd.1 < next_handle w /\ pd.2 < next_handle w /\
            Forall (fun e => deferred e <> pd.1 /\ deferred e <> pd.2) (buffer w))
    (thens w).

#[global] Instance well_formed_dec w : Decision (well_formed w).
Proof. unfold well_formed. apply _. Defined.

(** A world in the middle of a session: [/c] is parked on deferred 2,
    the replay of an earlier request is on promise 1 for deferred 0. *)
Definition midway : World :=
  {| buffer := [entry "/c" 2];
     handles := list_to_map [(0, Pending); (1, Pending); (2, Pending)];
     next_handle := 3;
     thens := [(1, 0)];
     trace := [] |}.

(** * Lemmas *)

Lemma bind_Ok {A B} (m : M A) (k : A -> M B) w a w' :
  m w = Ok a w' -> (x <- m ;; k x) w = k a w'.
Proof. intros H. unfold bind. now rewrite H. Qed.

Section ForBuffer.

Variable body : nat -> M unit.

Lemma for_buffer_S k i w :
  for_buffer (S k) body i w
  = if (i <? length (buffer w))%nat
    then (body i ;; for_buffer k body (S i)) w
    else Ok tt w.
Proof.
  change (for_buffer (S k) body i w)
    with ((if (i <? length (buffer w))%nat
           then body i ;; for_buffer k body (S i) else ret tt) w).
  now destruct (i <? length (buffer w))%nat.
Qed.

Lemma for_buffer_exit k i w :
  length (buffer w) <= i -> for_buffer (S k) body i w = Ok tt w.
Proof.
  intros H. rewrite for_buffer_S.
  destruct (Nat.ltb_spec i (length (buffer w))); [lia | reflexivity].
Qed.

Lemma for_buffer_step k i w e :
  buffer w !! i = Some e ->
  for_buffer (S k) body i w = (body i ;; for_buffer k body (S i)) w.
Proof.
  intros H. apply lookup_lt_Some in H. rewrite for_buffer_S.
  destruct (Nat.ltb_spec i (length (buffer w))); [reflexivity | lia].
Qed.

(** A stretch [l] of the buffer over which every iteration succeeds
    and leaves [buffer] alone is walked entry by entry. *)
Lemma for_buffer_stretch (step : World -> Entry -> World) (l : list Entry) :
  (forall e w i, e ∈ l -> buffer w !! i = Some e -> body i w = Ok tt (step w e)) ->
  (forall e w, e ∈ l -> buffer (step w e) = buffer w) ->
  forall (pre post : list Entry) k w,
    buffer w = pre ++ l ++ post ->
    for_buffer (length l + k) body (length pre) w
    = for_buffer k body (length pre + length l) (fold_left step l w).
Proof.
  induction l as [|e l IH]; intros Hbody Hbuf pre post k w Hw.
  - cbn. now rewrite Nat.add_0_r.
  - assert (Hi : buffer w !! length pre = Some e).
    { rewrite Hw. rewrite lookup_app_r by lia.
      now rewrite Nat.sub_diag. }
    cbn [length Nat.add fold_left].
    rewrite (for_buffer_step _ _ _ e Hi).
    rewrite (bind_Ok _ _ _ tt (step w e)).
    2:{ apply Hbody; [left | exact Hi]. }
    replace (S (length pre)) with (length (pre ++ [e])) by (rewrite length_app; cbn; lia).
    rewrite (IH (fun e' w' i' He' => Hbody e' w' i' (list_elem_of_further _ _ _ He'))
                (fun e' w' He' => Hbuf e' w' (list_elem_of_further _ _ _ He'))
                (pre ++ [e]) post k (step w e)).
    + f_equal. rewrite length_app. cbn. lia.
    + rewrite Hbuf by left. rewrite Hw. now rewrite <- app_assoc.
Qed.

End ForBuffer.

(** ** A run of [retryHttpRequest] over [angular_http] *)

Lemma issued_cons g e l w :
  issued g (e :: l) w = issued g l (issue (g e) (deferred e) w).
Proof. reflexivity. Qed.

Lemma issued_buffer g l w : buffer (issued g l w) = buffer w.
Proof.
  revert w. induction l as [|e l IH]; intros w; [reflexivity|].
  rewrite issued_cons. now rewrite IH.
Qed.

Lemma issued_trace g l w :
  trace (issued g l w) = trace w ++ map (fun e => EHttp (g e)) l.
Proof.
  revert w. induction l as [|e l IH]; intros w.
  - cbn. now rewrite app_nil_r.
  - rewrite issued_cons, IH. cbn. now rewrite <- app_assoc.
Qed.

(** Replaying settles nothing: the handles that existed keep their state. *)
Lemma issued_handles_old g l w d :
  d < next_handle w -> handles (issued g l w) !! d = handles w !! d.
Proof.
  revert w. induction l as [|e l IH]; intros w Hd; [reflexivity|].
  rewrite issued_cons, IH by (cbn; lia). cbn.
  apply lookup_insert_ne. lia.
Qed.

(** ** A run of [deferred.reject] *)

Lemma rejected_cons a e l w :
  rejected a (e :: l) w = rejected a l (rejected_one a w e).
Proof. reflexivity. Qed.

Lemma rejected_one_buffer a w e : buffer (rejected_one a w e) = buffer w.
Proof.
  unfold rejected_one, settle.
  now destruct (handles w !! deferred e) as [[]|].
Qed.

Lemma rejected_one_trace a w e :
  trace (rejected_one a w e) = trace w ++ [EReject (deferred e) a].
Proof.
  unfold rejected_one, settle.
  now destruct (handles w !! deferred e) as [[]|].
Qed.

Lemma rejected_buffer a l w : buffer (rejected a l w) = buffer w.
Proof.
  revert w. induction l as [|e l IH]; intros w; [reflexivity|].
  rewrite rejected_cons, IH. apply rejected_one_buffer.
Qed.

Lemma rejected_trace a l w :
  trace (rejected a l w) = trace w ++ map (fun e => EReject (deferred e) a) l.
Proof.
  revert w. induction l as [|e l IH]; intros w.
  - cbn. now rewrite app_nil_r.
  - rewrite rejected_cons, IH, rejected_one_trace. cbn.
    now rewrite <- app_assoc.
Qed.

Lemma settle_lookup_ne d s w d' :
  d <> d' -> handles (settle d s w) !! d' = handles w !! d'.
Proof.
  intros Hne. unfold settle.
  destruct (handles w !! d) as [[]|]; try reflexivity.
  cbn. now apply lookup_insert_ne.
Qed.

Lemma settle_lookup_pending d s w :
  handles w !! d = Some Pending -> handles (settle d s w) !! d = Some s.
Proof.
  intros H. unfold settle. rewrite H. cbn. apply lookup_insert_eq.
Qed.

Lemma settle_lookup_settled d s w s' :
  handles w !! d = Some s' -> s' <> Pending ->
  handles (settle d s w) !! d = Some s'.
Proof.
  intros H Hs. unfold settle. rewrite H.
  destruct s'; [congruence | exact H | exact H].
Qed.

(** A handle rejected with [a] stays so through further rejections. *)
Lemma rejected_keeps a l w d :
  handles w !! d = Some (Rejected a) ->
  handles (rejected a l w) !! d = Some (Rejected a).
Proof.
  revert w. induction l as [|e l IH]; intros w H; [exact H|].
  rewrite rejected_cons. apply IH. unfold rejected_one. cbn.
  destruct (decide (deferred e = d)) as [->|Hne].
  - now apply settle_lookup_settled.
  - now rewrite settle_lookup_ne.
Qed.

(** Handles outside the run are left alone. *)
Lemma rejected_handles_other a l w d :
  d ∉ map deferred l -> handles (rejected a l w) !! d = handles w !! d.
Proof.
  revert w. induction l as [|e l IH]; intros w H; [reflexivity|].
  cbn in H. apply not_elem_of_cons in H as [Hne Hl].
  rewrite rejected_cons, IH by exact Hl. unfold rejected_one. cbn.
  apply settle_lookup_ne. congruence.
Qed.

(** Every pending handle of the run ends rejected with [a]. *)
Lemma rejected_handles_in a l w e :
  e ∈ l -> handles w !! deferred e = Some Pending ->
  handles (rejected a l w) !! deferred e = Some (Rejected a).
Proof.
  revert w. induction l as [|e' l IH]; intros w He Hp.
  - now apply elem_of_nil in He.
  - rewrite rejected_cons.
    destruct (decide (deferred e' = deferred e)) as [Heq|Hne].
    + apply rejected_keeps. unfold rejected_one. cbn.
      rewrite Heq. now apply settle_lookup_pending.
    + apply elem_of_cons in He as [->|He]; [congruence|].
      apply IH; [exact He|]. unfold rejected_one. cbn.
      now rewrite settle_lookup_ne.
Qed.

(** ** The two loops on well-behaved arguments *)

Lemma reject_body a i w e :
  buffer w !! i = Some e ->
  (e <- buffer_at i ;; deferred_reject (deferred e) a) w = Ok tt (rejected_one a w e).
Proof.
  intros H. unfold bind, buffer_at. now rewrite H.
Qed.

Lemma reject_loop a fuel w :
  length (buffer w) < fuel ->
  for_buffer fuel (fun i => e <- buffer_at i ;; deferred_reject (deferred e) a) 0 w
  = Ok tt (rejected a (buffer w) w).
Proof.
  intros Hf.
  replace fuel with (length (buffer w) + S (fuel - length (buffer w) - 1)) by lia.
  rewrite (for_buffer_stretch _ (rejected_one a) (buffer w)) with (pre := []) (post := []).
  - apply for_buffer_exit. fold (rejected a (buffer w) w).
    rewrite rejected_buffer. cbn. lia.
  - intros e w' i _ Hi. now apply reject_body.
  - intros e w' _. apply rejected_one_buffer.
  - cbn. now rewrite app_nil_r.
Qed.

Lemma rejectAll_truthy fuel reason w :
  truthy reason = true -> length (buffer w) < fuel ->
  rejectAll fuel reason w
  = Ok tt (set_buffer [] (rejected (AVal reason) (buffer w) w)).
Proof.
  intros Ht Hf. unfold rejectAll. rewrite Ht.
  now rewrite (bind_Ok _ _ _ tt _ (reject_loop _ _ _ Hf)).
Qed.

Lemma rejectAll_falsy fuel reason w :
  truthy reason = false -> rejectAll fuel reason w = Ok tt (set_buffer [] w).
Proof.
  intros Ht. unfold rejectAll. now rewrite Ht.
Qed.

(** One iteration of [retryAll] when [updater] returns [c'] without
    touching the world. *)
Lemma retry_body_angular updater i w e c' :
  buffer w !! i = Some e ->
  call updater (config e) w = Ok c' w ->
  retryAll_body angular_http updater i w = Ok tt (issue c' (deferred e) w).
Proof.
  intros Hi Hu. unfold retryAll_body, bind, buffer_at.
  rewrite Hi, Hu, Hi. reflexivity.
Qed.


Lemma retry_loop_pure (f : Config -> Config) fuel w :
  length (buffer w) < fuel ->
  for_buffer fuel (retryAll_body angular_http (pure_fn f)) 0 w
  = Ok tt (issued (fun e => f (config e)) (buffer w) w).
Proof.
  intros Hf.
  replace fuel with (length (buffer w) + S (fuel - length (buffer w) - 1)) by lia.
  rewrite (for_buffer_stretch _ (fun w e => issue (f (config e)) (deferred e) w) (buffer w))
    with (pre := []) (post := []).
  - apply for_buffer_exit. fold (issued (fun e => f (config e)) (buffer w) w).
    rewrite issued_buffer. cbn. lia.
  - intros e w' i _ Hi. now apply retry_body_angular.
  - reflexivity.
  - cbn. now rewrite app_nil_r.
Qed.

Lemma retryAll_pure (f : Config -> Config) fuel w :
  length (buffer w) < fuel ->
  retryAll angular_http fuel (pure_fn f) w
  = Ok tt (set_buffer [] (issued (fun e => f (config e)) (buffer w) w)).
Proof.
  intros Hf. unfold retryAll.
  now rewrite (bind_Ok _ _ _ tt _ (retry_loop_pure f _ _ Hf)).
Qed.

(** * The interceptor *)

(** The interceptor settles nothing: a handle that is pending when the
    filter has answered is pending when [responseError] returns. *)
Lemma responseError_keeps_pending cl rejection w v w1 d :
  responseErrorFilter cl rejection w = Ok v w1 ->
  handles w1 !! d = Some Pending ->
  exists p w2,
    responseError cl rejection w = Ok p w2 /\ handles w2 !! d = Some Pending.
Proof.
  intros Hf Hd.
  assert (Hins : <[next_handle w1 := Pending]> (handles w1) !! d = Some Pending).
  { destruct (decide (next_handle w1 = d)) as [->|Hne].
    - apply lookup_insert_eq.
    - now rewrite lookup_insert_ne. }
  unfold responseError. rewrite (bind_Ok _ _ _ _ _ Hf).
  destruct (truthy v); cbn [negb]; [|now eexists; eexists].
  destruct (truthy (prop (config_of rejection) "ignoreAuthModule"));
    cbn [negb]; [now eexists; eexists|].
  repeat case_decide; eexists; eexists; (split; [reflexivity|]); cbn; assumption.
Qed.

(** C2.  A failed response with status 400 or 401 that the filter accepts
    and that is not opted out is parked: [responseError] makes one new
    deferred, appends exactly one entry pairing the request config with
    it, broadcasts exactly one event with the rejection as payload
    ([event:auth-missingParameter] for 400, [event:auth-loginRequired]
    for 401), and returns the promise of that deferred, which is pending;
    no other handle is touched, nothing is resolved or rejected, and a
    later failed response through the interceptor leaves the promise
    pending as long as the filter does.  Only the drains of
    [loginConfirmed] and [loginCancelled] take the entry out again. *)
Theorem responseError_parks_400_401 cl rejection w v w1 :
  responseErrorFilter cl rejection w = Ok v w1 ->
  truthy v = true ->
  truthy (prop (config_of rejection) "ignoreAuthModule") = false ->
  rej_status rejection = VNum 400 \/ rej_status rejection = VNum 401 ->
  exists w2,
    responseError cl rejection w = Ok (PromiseOf (next_handle w1)) w2 /\
    buffer w2 = buffer w1 ++ [{| config := config_of rejection;
                                 deferred := next_handle w1 |}] /\
    trace w2 = trace w1 ++ [EBroadcast (parking_event (rej_status rejection))
                                       (AResponse rejection)] /\
    handles w2 !! next_handle w1 = Some Pending /\
    (forall d, d <> next_handle w1 -> handles w2 !! d = handles w1 !! d) /\
    (forall cl' rejection' v' w3,
       responseErrorFilter cl' rejection' w2 = Ok v' w3 ->
       handles w3 !! next_handle w1 = Some Pending ->
       exists p w4,
         responseError cl' rejection' w2 = Ok p w4 /\
         handles w4 !! next_handle w1 = Some Pending).
Proof.
  intros Hf Hv Hig Hst.
  assert (Hlater : forall w2 cl' rejection' v' w3,
             responseErrorFilter cl' rejection' w2 = Ok v' w3 ->
             handles w3 !! next_handle w1 = Some Pending ->
             exists p w4,
               responseError cl' rejection' w2 = Ok p w4 /\
               handles w4 !! next_handle w1 = Some Pending).
  { intros w2 cl' rejection' v' w3. apply responseError_keeps_pending. }
  unfold responseError. rewrite (bind_Ok _ _ _ _ _ Hf).
  rewrite Hv. cbn [negb]. rewrite Hig. cbn [negb].
  unfold parking_event.
  destruct Hst as [Hst|Hst]; rewrite Hst.
  - rewrite decide_True by reflexivity.
    eexists. split; [reflexivity|]. cbn.
    split; [reflexivity|]. split; [reflexivity|].
    split; [apply lookup_insert_eq|].
    split; [intros d Hd; now apply lookup_insert_ne|].
    apply Hlater.
  - rewrite decide_False by discriminate.
    rewrite decide_True by reflexivity.
    eexists. split; [reflexivity|]. cbn.
    split; [reflexivity|]. split; [reflexivity|].
    split; [apply lookup_insert_eq|].
    split; [intros d Hd; now apply lookup_insert_ne|].
    apply Hlater.
Qed.

Lemma responseError_parks_400_401_witness :
  exists w2,
    responseError default_classifier (rejection_with 401 (cfg "/orders")) empty_world
    = Ok (PromiseOf 0) w2 /\
    buffer w2 = [entry "/orders" 0] /\
    trace w2 = [EBroadcast "event:auth-loginRequired"
                  (AResponse (rejection_with 401 (cfg "/orders")))] /\
    handles w2 !! 0 = Some Pending.
Proof.
  destruct (responseError_parks_400_401 default_classifier
              (rejection_with 401 (cfg "/orders")) empty_world
              (VBool true) empty_world)
    as (w2 & H1 & H2 & H3 & H4 & _ & _).
  - reflexivity.
  - reflexivity.
  - reflexivity.
  - right. reflexivity.
  - exists w2. repeat split; assumption.
Defined.

(** C7.  When the request config has [ignoreAuthModule] set to [true]
    (or to any truthy value), then whatever the status and whatever the
    filter answered, [responseError] returns [$q.reject(rejection)] with
    the rejection it was given, in the very world the filter left:
    nothing is appended and nothing is broadcast. *)
Theorem responseError_ignoreAuthModule cl rejection w v w1 :
  responseErrorFilter cl rejection w = Ok v w1 ->
  truthy (prop (config_of rejection) "ignoreAuthModule") = true ->
  responseError cl rejection w = Ok (QReject rejection) w1.
Proof.
  intros Hf Hig.
  unfold responseError. rewrite (bind_Ok _ _ _ _ _ Hf).
  fold (config_of rejection). rewrite Hig.
  now destruct (truthy v).
Qed.

Lemma responseError_ignoreAuthModule_witness :
  let c := <[ "ignoreAuthModule" := VBool true ]> (cfg "/login") in
  responseError default_classifier (rejection_with 401 c) empty_world
  = Ok (QReject (rejection_with 401 c)) empty_world.
Proof.
  intros c.
  apply (responseError_ignoreAuthModule default_classifier
           (rejection_with 401 c) empty_world (VBool true) empty_world).
  - reflexivity.
  - reflexivity.
Defined.

(** C8.  A failed response that the filter accepts and that is not opted
    out: with status 403, exactly one [event:auth-forbidden] carrying the
    rejection is broadcast, the buffer and the handles stay as they were,
    and the rejection is returned as it came; with a status other than
    400, 401 and 403, the rejection is returned as it came and the world
    is the one the filter left. *)
Theorem responseError_forbidden_or_unclassified cl rejection w v w1 :
  responseErrorFilter cl rejection w = Ok v w1 ->
  truthy v = true ->
  truthy (prop (config_of rejection) "ignoreAuthModule") = false ->
  (rej_status rejection = VNum 403 ->
   exists w2,
     responseError cl rejection w = Ok (QReject rejection) w2 /\
     buffer w2 = buffer w1 /\
     handles w2 = handles w1 /\
     trace w2 = trace w1 ++ [EBroadcast "event:auth-forbidden"
                                        (AResponse rejection)]) /\
  (rej_status rejection <> VNum 400 ->
   rej_status rejection <> VNum 401 ->
   rej_status rejection <> VNum 403 ->
   responseError cl rejection w = Ok (QReject rejection) w1).
Proof.
  intros Hf Hv Hig.
  unfold responseError. rewrite (bind_Ok _ _ _ _ _ Hf).
  rewrite Hv. cbn [negb]. fold (config_of rejection). rewrite Hig. cbn [negb].
  split.
  - intros Hst. rewrite Hst.
    rewrite decide_False by discriminate.
    rewrite decide_False by discriminate.
    rewrite decide_True by reflexivity.
    eexists. split; [reflexivity|]. now cbn.
  - intros H400 H401 H403.
    now rewrite !decide_False by assumption.
Qed.

Lemma responseError_forbidden_or_unclassified_witness :
  (exists w2,
     responseError default_classifier (rejection_with 403 (cfg "/admin")) empty_world
     = Ok (QReject (rejection_with 403 (cfg "/admin"))) w2 /\
     buffer w2 = [] /\
     trace w2 = [EBroadcast "event:auth-forbidden"
                   (AResponse (rejection_with 403 (cfg "/admin")))]) /\
  responseError default_classifier (rejection_with 500 (cfg "/admin")) empty_world
  = Ok (QReject (rejection_with 500 (cfg "/admin"))) empty_world.
Proof.
  split.
  - destruct (responseError_forbidden_or_unclassified default_classifier
                (rejection_with 403 (cfg "/admin")) empty_world
                (VBool true) empty_world) as [H _].
    + reflexivity.
    + reflexivity.
    + reflexivity.
    + destruct (H eq_refl) as (w2 & H1 & H2 & _ & H4).
      exists w2. repeat split; assumption.
  - destruct (responseError_forbidden_or_unclassified default_classifier
                (rejection_with 500 (cfg "/admin")) empty_world
                (VBool true) empty_world) as [_ H].
    + reflexivity.
    + reflexivity.
    + reflexivity.
    + apply H; discriminate.
Defined.

(** * [authService] *)

Lemma loginConfirmed_pure data (f : Config -> Config) fuel w :
  length (buffer w) < fuel ->
  loginConfirmed angular_http fuel data (pure_fn f) w
  = Ok tt (set_buffer []
             (issued (fun e => f (config e)) (buffer w) (log (confirmed data) w))).
Proof.
  intros Hf. unfold loginConfirmed. cbn [callable_truthy pure_fn].
  unfold bind at 1. cbn [broadcast modify].
  now rewrite retryAll_pure.
Qed.

(** C3.  [loginConfirmed(data, updater)] with N entries parked and
    [updater] a function on configs: the call returns; it has broadcast
    [event:auth-loginConfirmed] with [data] and after that made exactly N
    transport requests, one for each entry in the order of insertion,
    each with the config [updater] returns for the entry's config; the
    buffer is empty.  A second call, on the now empty buffer, broadcasts
    again and makes no request. *)
Theorem loginConfirmed_replays_each_entry_once data (f : Config -> Config) fuel w :
  length (buffer w) < fuel ->
  exists w1 w2,
    loginConfirmed angular_http fuel data (pure_fn f) w = Ok tt w1 /\
    trace w1 = trace w ++ confirmed data
                 :: map (fun e => EHttp (f (config e))) (buffer w) /\
    buffer w1 = [] /\
    loginConfirmed angular_http fuel data (pure_fn f) w1 = Ok tt w2 /\
    trace w2 = trace w1 ++ [confirmed data] /\
    buffer w2 = [].
Proof.
  intros Hf.
  eexists. eexists.
  split; [apply loginConfirmed_pure; exact Hf|].
  split; [cbn; rewrite issued_trace; cbn; now rewrite <- app_assoc|].
  split; [reflexivity|].
  split; [apply loginConfirmed_pure; cbn; lia|].
  split; reflexivity.
Qed.

Lemma loginConfirmed_replays_each_entry_once_witness :
  let token := fun c : Config => <[ "token" := VStr "t0k" ]> c in
  exists w1,
    loginConfirmed angular_http 3 (VStr "alice") (pure_fn token)
      (parked [entry "/a" 0; entry "/b" 1]) = Ok tt w1 /\
    trace w1 = [confirmed (VStr "alice");
                EHttp (token (cfg "/a")); EHttp (token (cfg "/b"))] /\
    buffer w1 = [].
Proof.
  intros token.
  destruct (loginConfirmed_replays_each_entry_once (VStr "alice") token 3
              (parked [entry "/a" 0; entry "/b" 1]))
    as (w1 & w2 & H1 & H2 & H3 & _).
  - cbn. lia.
  - exists w1. repeat split; assumption.
Defined.

(** C9, as the code has it.  The default lives in [loginConfirmed], not
    in the buffer: called with no [configUpdater], or with any falsy
    one, [loginConfirmed] does what it does with the identity function,
    over any transport; over the AngularJS transport every parked config
    is then requested again as it was.  [retryAll] itself, handed
    something that is not a function, returns only when the buffer is
    empty. *)
Theorem loginConfirmed_defaults_to_identity http fuel data v w :
  truthy v = false ->
  loginConfirmed http fuel data (NotFn v) w
  = loginConfirmed http fuel data (pure_fn (fun c => c)) w /\
  (length (buffer w) < fuel ->
   exists w',
     loginConfirmed angular_http fuel data (NotFn v) w = Ok tt w' /\
     trace w' = trace w ++ confirmed data
                  :: map (fun e => EHttp (config e)) (buffer w) /\
     buffer w' = []) /\
  (buffer w = [] ->
   retryAll http (S fuel) (NotFn v) w = Ok tt (set_buffer [] w)).
Proof.
  intros Hv. split; [|split].
  - unfold loginConfirmed. cbn [callable_truthy pure_fn]. now rewrite Hv.
  - intros Hf. eexists. split.
    + unfold loginConfirmed at 1. cbn [callable_truthy]. rewrite Hv.
      apply (loginConfirmed_pure data (fun c => c) fuel w Hf).
    + split; [|reflexivity].
      cbn. rewrite issued_trace. cbn. now rewrite <- app_assoc.
  - intros Hb. unfold retryAll.
    rewrite (bind_Ok _ _ _ tt w); [reflexivity|].
    apply for_buffer_exit. rewrite Hb. cbn. lia.
Qed.

Lemma loginConfirmed_defaults_to_identity_witness :
  exists w',
    loginConfirmed angular_http 3 VNull (NotFn VUndefined)
      (parked [entry "/a" 0; entry "/b" 1]) = Ok tt w' /\
    trace w' = [confirmed VNull; EHttp (cfg "/a"); EHttp (cfg "/b")] /\
    buffer w' = [].
Proof.
  destruct (loginConfirmed_defaults_to_identity angular_http 3 VNull VUndefined
              (parked [entry "/a" 0; entry "/b" 1]))
    as (_ & H & _).
  - reflexivity.
  - apply H. cbn. lia.
Defined.

(** C9 as written fails: [retryAll] with no updater on a buffer that
    holds an entry throws at the first [updater(...)], and the buffer
    is left as it was; with the identity it returns. *)
Lemma retryAll_without_updater_throws :
  retryAll angular_http 3 (NotFn VUndefined) (parked [entry "/a" 0])
  = Throw (TypeError "updater is not a function") (parked [entry "/a" 0]) /\
  exists w',
    retryAll angular_http 3 (pure_fn (fun c => c)) (parked [entry "/a" 0])
    = Ok tt w' /\
    trace w' = [EHttp (cfg "/a")].
Proof.
  split; [reflexivity|].
  eexists. split; reflexivity.
Qed.

(** * [rejectAll] and [loginCancelled] *)

(** C10.  [rejectAll] tests its argument with [if (reason)].  The five
    values [undefined], [null], [false], [0] and the empty string are
    falsy; on every falsy reason the buffer is emptied and nothing else
    changes, so no handle is settled; on a truthy reason, [reject] is
    called with it on the deferred of every entry in the order of
    insertion, every handle of the buffer that was pending is rejected
    with it, handles outside the buffer keep their state, and the buffer
    is emptied. *)
Theorem rejectAll_decides_by_truthiness fuel reason w :
  (truthy reason = true -> length (buffer w) < fuel) ->
  Forall (fun v => truthy v = false)
    [VUndefined; VNull; VBool false; VNum 0; VStr EmptyString] /\
  (truthy reason = false -> rejectAll fuel reason w = Ok tt (set_buffer [] w)) /\
  (truthy reason = true ->
   exists w',
     rejectAll fuel reason w = Ok tt w' /\
     buffer w' = [] /\
     trace w' = trace w ++ map (fun e => EReject (deferred e) (AVal reason)) (buffer w) /\
     (forall e, e ∈ buffer w -> handles w !! deferred e = Some Pending ->
                handles w' !! deferred e = Some (Rejected (AVal reason))) /\
     (forall d, d ∉ map deferred (buffer w) -> handles w' !! d = handles w !! d)).
Proof.
  intros Hfuel. split; [|split].
  - repeat constructor.
  - apply rejectAll_falsy.
  - intros Ht. eexists.
    split; [apply rejectAll_truthy; auto|].
    split; [reflexivity|].
    split; [apply rejected_trace|].
    split.
    + intros e He Hp. cbn. now apply rejected_handles_in.
    + intros d Hd. cbn. now apply rejected_handles_other.
Qed.

Lemma rejectAll_decides_by_truthiness_witness :
  rejectAll 0 (VNum 0) (parked [entry "/a" 0; entry "/b" 1])
  = Ok tt (set_buffer [] (parked [entry "/a" 0; entry "/b" 1])) /\
  exists w',
    rejectAll 3 (VStr "cancelled") (parked [entry "/a" 0; entry "/b" 1]) = Ok tt w' /\
    buffer w' = [] /\
    trace w' = [EReject 0 (AVal (VStr "cancelled")); EReject 1 (AVal (VStr "cancelled"))].
Proof.
  split.
  - destruct (rejectAll_decides_by_truthiness 0 (VNum 0)
                (parked [entry "/a" 0; entry "/b" 1])) as (_ & H & _).
    + discriminate.
    + apply H. reflexivity.
  - destruct (rejectAll_decides_by_truthiness 3 (VStr "cancelled")
                (parked [entry "/a" 0; entry "/b" 1])) as (_ & _ & H).
    + intros _. cbn. lia.
    + destruct (H eq_refl) as (w' & H1 & H2 & H3 & _).
      exists w'. repeat split; assumption.
Defined.

(** What [loginCancelled] does on a truthy reason: every rejection comes
    before the broadcast. *)
Lemma loginCancelled_truthy fuel data reason w :
  truthy reason = true -> length (buffer w) < fuel ->
  exists w',
    loginCancelled fuel data reason w = Ok tt w' /\
    buffer w' = [] /\
    trace w' = trace w
               ++ map (fun e => EReject (deferred e) (AVal reason)) (buffer w)
               ++ [cancelled data] /\
    (forall e, e ∈ buffer w -> handles w !! deferred e = Some Pending ->
               handles w' !! deferred e = Some (Rejected (AVal reason))).
Proof.
  intros Ht Hf. eexists. split.
  - unfold loginCancelled. rewrite (bind_Ok _ _ _ tt _ (rejectAll_truthy _ _ _ Ht Hf)).
    reflexivity.
  - cbn. rewrite rejected_trace, <- app_assoc.
    repeat split. intros e He Hp. now apply rejected_handles_in.
Qed.

(** What it does on a falsy reason, the omitted one among them: the
    handles are left as they are and the event is broadcast. *)
Lemma loginCancelled_falsy fuel data reason w :
  truthy reason = false ->
  loginCancelled fuel data reason w
  = Ok tt (log (cancelled data) (set_buffer [] w)).
Proof.
  intros Ht. unfold loginCancelled.
  now rewrite (bind_Ok _ _ _ tt _ (rejectAll_falsy _ _ _ Ht)).
Qed.

(** C4 on a reason that is provided but falsy.  [loginCancelled(null, '')]
    with one request parked: [reject] is never called, the handle stays
    pending, the buffer is emptied and the event is broadcast. *)
Theorem loginCancelled_provided_falsy_reason_abandons :
  exists w',
    loginCancelled 3 VNull (VStr EmptyString) (parked [entry "/a" 0]) = Ok tt w' /\
    buffer w' = [] /\
    handles w' !! 0 = Some Pending /\
    trace w' = [cancelled VNull].
Proof.
  eexists. split; [reflexivity|]. repeat split.
Qed.

(** * When the buffer is cleared *)






(** * Failures of the drains, and of the replayed requests *)

Lemma issued_thens_keep g l w pd :
  pd ∈ thens w -> pd ∈ thens (issued g l w).
Proof.
  revert w. induction l as [|e l IH]; intros w H; [exact H|].
  rewrite issued_cons. apply IH. cbn. apply elem_of_app. now left.
Qed.

(** The transport promise of the [i]-th replay carries the callbacks
    closed over the [i]-th entry's own deferred. *)
Lemma issued_thens_in g l w i e :
  l !! i = Some e -> (next_handle w + i, deferred e) ∈ thens (issued g l w).
Proof.
  revert w i. induction l as [|e0 l IH]; intros w i H; [discriminate|].
  rewrite issued_cons. destruct i as [|i].
  - injection H as ->. apply issued_thens_keep. cbn.
    rewrite Nat.add_0_r. apply elem_of_app. right. left.
  - cbn in H. replace (next_handle w + S i) with (S (next_handle w) + i) by lia.
    now apply (IH (issue (g e0) (deferred e0) w) i).
Qed.





(** * An append in the middle of a drain *)








(** * Beyond the claims: the rest of the interceptor *)

Lemma bind_Throw {A B} (m : M A) (k : A -> M B) w x w' :
  m w = Throw x w' -> (a <- m ;; k a) w = Throw x w'.
Proof. intros H. unfold bind. now rewrite H. Qed.

Lemma responseError_park cl rejection w v w1 :
  responseErrorFilter cl rejection w = Ok v w1 ->
  truthy v = true ->
  truthy (prop (config_of rejection) "ignoreAuthModule") = false ->
  rej_status rejection = VNum 400 \/ rej_status rejection = VNum 401 ->
  responseError cl rejection w = Ok (PromiseOf (next_handle w1)) (park rejection w1).
Proof.
  intros Hf Hv Hig Hst.
  unfold responseError. rewrite (bind_Ok _ _ _ _ _ Hf).
  rewrite Hv. cbn [negb]. rewrite Hig. cbn [negb].
  unfold park, parking_event.
  destruct Hst as [Hst|Hst]; rewrite Hst.
  - now rewrite !decide_True by reflexivity.
  - rewrite !decide_False by discriminate.
    now rewrite decide_True by reflexivity.
Qed.

(** X1.  [setResponseErrorFilter] (lines 40-42) and the first test of
    [responseError] (lines 118-120): once a filter is installed, a
    rejection it answers with a falsy value goes straight back to the
    caller as [$q.reject(rejection)], whatever its status (400 and 401
    too) and whatever its config; the world is the one the filter left,
    so nothing is parked and nothing is broadcast. *)
Theorem refused_rejection_passes_through cl func rejection w v w1 :
  func rejection w = Ok v w1 ->
  truthy v = false ->
  responseError (setResponseErrorFilter func cl) rejection w
  = Ok (QReject rejection) w1.
Proof.
  intros Hf Hv. unfold responseError. cbn [responseErrorFilter setResponseErrorFilter].
  rewrite (bind_Ok _ _ _ _ _ Hf). now rewrite Hv.
Qed.

Lemma refused_rejection_passes_through_witness :
  let only_api := fun r : Response =>
    ret (VBool (bool_decide (prop (config_of r) "url" = VStr "/api"))) in
  responseError (setResponseErrorFilter only_api default_classifier)
    (rejection_with 401 (cfg "/other")) (parked [entry "/a" 0])
  = Ok (QReject (rejection_with 401 (cfg "/other"))) (parked [entry "/a" 0]).
Proof.
  intros only_api.
  apply (refused_rejection_passes_through default_classifier only_api
           (rejection_with 401 (cfg "/other")) (parked [entry "/a" 0])
           (VBool false) (parked [entry "/a" 0])).
  - vm_compute. reflexivity.
  - reflexivity.
Defined.

(** X2.  [request] (lines 106-114) after [setRequestFilter] and
    [setRequestPreprocessor] (lines 50-63): when the installed filter
    answers falsy the config is returned as it came, in the world the
    filter left, and the preprocessor is not run; when it answers truthy
    the outcome is exactly that of the installed preprocessor run on the
    config in that world.  The hooks that were installed before, and the
    response filter, play no part. *)
Theorem request_runs_preprocessor_only_when_filtered_in
    cl (flt : Config -> M JsVal) (pre : Config -> M Config) c w v w1 :
  flt c w = Ok v w1 ->
  request (setRequestPreprocessor pre (setRequestFilter flt cl)) c w
  = if truthy v then pre c w1 else Ok c w1.
Proof.
  intros Hf. unfold request.
  cbn [requestFilter requestPreprocessor setRequestPreprocessor setRequestFilter].
  rewrite (bind_Ok _ _ _ _ _ Hf). now destruct (truthy v).
Qed.

Lemma request_runs_preprocessor_only_when_filtered_in_witness :
  let same_origin := fun c : Config =>
    ret (VBool (bool_decide (prop c "url" = VStr "/api"))) in
  let add_token := fun c : Config => ret (<[ "Authorization" := VStr "Bearer t" ]> c) in
  request (setRequestPreprocessor add_token (setRequestFilter same_origin default_classifier))
    (cfg "/api") empty_world
  = Ok (<[ "Authorization" := VStr "Bearer t" ]> (cfg "/api")) empty_world /\
  request (setRequestPreprocessor add_token (setRequestFilter same_origin default_classifier))
    (cfg "/elsewhere") empty_world
  = Ok (cfg "/elsewhere") empty_world.
Proof.
  intros same_origin add_token. split.
  - apply (request_runs_preprocessor_only_when_filtered_in default_classifier
             same_origin add_token (cfg "/api") empty_world (VBool true) empty_world).
    vm_compute. reflexivity.
  - apply (request_runs_preprocessor_only_when_filtered_in default_classifier
             same_origin add_token (cfg "/elsewhere") empty_world (VBool false) empty_world).
    vm_compute. reflexivity.
Defined.

(** X3.  [rejection.config || {}] (line 122): a rejection that carries
    no config cannot be opted out; with status 400 or 401 and a filter
    that accepts it, it is parked with the empty object as its config. *)
Theorem rejection_without_config_is_parked_with_empty_config cl rejection w v w1 :
  rej_config rejection = None ->
  responseErrorFilter cl rejection w = Ok v w1 ->
  truthy v = true ->
  rej_status rejection = VNum 400 \/ rej_status rejection = VNum 401 ->
  exists w2,
    responseError cl rejection w = Ok (PromiseOf (next_handle w1)) w2 /\
    buffer w2 = buffer w1 ++ [{| config := ∅; deferred := next_handle w1 |}].
Proof.
  intros Hc Hf Hv Hst. exists (park rejection w1). split.
  - apply (responseError_park cl rejection w v w1 Hf Hv); [|exact Hst].
    unfold config_of. now rewrite Hc.
  - cbn. unfold config_of. now rewrite Hc.
Qed.

Lemma rejection_without_config_is_parked_with_empty_config_witness :
  let r := {| rej_status := VNum 401; rej_config := None; rej_data := VNull |} in
  exists w2,
    responseError default_classifier r empty_world = Ok (PromiseOf 0) w2 /\
    buffer w2 = [{| config := ∅; deferred := 0 |}].
Proof.
  intros r.
  apply (rejection_without_config_is_parked_with_empty_config default_classifier r
           empty_world (VBool true) empty_world).
  - reflexivity.
  - reflexivity.
  - reflexivity.
  - right. reflexivity.
Defined.

(** * Beyond the claims: the buffer *)

(** X4.  [append] then [retryAll] (lines 174-179, 196-201): a request
    appended to a buffer is replayed after the ones that were there,
    and what is sent for it is [updater] applied to the config it was
    appended with; with the identity, the config itself. *)
Theorem append_then_retryAll_reissues_the_config
    (f : Config -> Config) c d fuel w :
  length (buffer w) + 1 < fuel ->
  exists w',
    (append c d ;; retryAll angular_http fuel (pure_fn f)) w = Ok tt w' /\
    trace w' = trace w ++ map (fun e => EHttp (f (config e))) (buffer w) ++ [EHttp (f c)] /\
    buffer w' = [].
Proof.
  intros Hf. eexists. split.
  - unfold bind at 1. cbn [append modify].
    apply retryAll_pure. cbn. rewrite length_app. cbn. lia.
  - split; [|reflexivity]. cbn [trace set_buffer].
    rewrite issued_trace. cbn [trace buffer set_buffer].
    now rewrite map_app.
Qed.

Lemma append_then_retryAll_reissues_the_config_witness :
  exists w',
    (append (cfg "/b") 1 ;; retryAll angular_http 3 (pure_fn (fun c => c)))
      (parked [entry "/a" 0]) = Ok tt w' /\
    trace w' = [EHttp (cfg "/a"); EHttp (cfg "/b")] /\
    buffer w' = [].
Proof.
  apply (append_then_retryAll_reissues_the_config (fun c => c) (cfg "/b") 1 3
           (parked [entry "/a" 0])).
  cbn. lia.
Defined.

Lemma issued_next_handle g l w :
  next_handle (issued g l w) = next_handle w + length l.
Proof.
  revert w. induction l as [|e l IH]; intros w; [cbn; lia|].
  rewrite issued_cons, IH. cbn. lia.
Qed.


(** The pairs attached after a run: the old ones, and for the [i]-th
    entry its deferred on the [i]-th new promise. *)
Lemma issued_thens_elem g l w pd :
  pd ∈ thens (issued g l w) ->
  pd ∈ thens w \/ exists i e, l !! i = Some e /\ pd = (next_handle w + i, deferred e).
Proof.
  revert w. induction l as [|e l IH]; intros w H; [now left|].
  rewrite issued_cons in H. apply IH in H as [H|(i & e' & Hi & ->)].
  - cbn in H. apply elem_of_app in H as [H|H]; [now left|].
    apply list_elem_of_singleton in H as ->.
    right. exists 0, e. split; [reflexivity|]. now rewrite Nat.add_0_r.
  - right. exists (S i), e'. split; [exact Hi|]. cbn. f_equal. lia.
Qed.

Lemma run_thens_settles p ok r l :
  forall w d,
    ((p, d) ∈ l /\ handles w !! d = Some Pending)
    \/ handles w !! d = Some (outcome ok r) ->
    exists w',
      run_thens p ok r l w = Ok tt w' /\
      handles w' !! d = Some (outcome ok r).
Proof.
  assert (Hne : outcome ok r <> Pending) by (now destruct ok).
  induction l as [|[q d0] l IH]; intros w d H.
  - destruct H as [[H _]|H]; [now apply elem_of_nil in H|].
    exists w. now split.
  - cbn [run_thens]. destruct (decide (q = p)) as [->|Hq].
    + assert (Hstep : forall w0,
                (if ok then successCallback d0 r else errorCallback d0 r) w0
                = Ok tt (log (if ok then EResolve d0 (AResponse r)
                              else EReject d0 (AResponse r))
                           (settle d0 (outcome ok r) w0))).
      { intros w0. now destruct ok. }
      rewrite (bind_Ok _ _ _ tt _ (Hstep w)).
      apply IH. destruct H as [[Hin Hp]|Hr].
      * destruct (decide (d0 = d)) as [->|Hd].
        -- right. cbn. now apply settle_lookup_pending.
        -- left. split.
           ++ apply elem_of_cons in Hin as [Heq|Hin]; [congruence|exact Hin].
           ++ cbn. now rewrite settle_lookup_ne.
      * right. cbn. destruct (decide (d0 = d)) as [->|Hd].
        -- now apply settle_lookup_settled.
        -- now rewrite settle_lookup_ne.
    + unfold bind at 1. cbn [ret].
      apply IH. destruct H as [[Hin Hp]|Hr]; [left|now right].
      split; [|exact Hp].
      apply elem_of_cons in Hin as [Heq|Hin]; [congruence|exact Hin].
Qed.

(** Callbacks attached to [p] touch only the deferreds they are closed
    over. *)
Lemma run_thens_frame p ok r l :
  forall w,
    exists w',
      run_thens p ok r l w = Ok tt w' /\
      buffer w' = buffer w /\
      next_handle w' = next_handle w /\
      thens w' = thens w /\
      (forall x, (p, x) ∉ l -> handles w' !! x = handles w !! x).
Proof.
  induction l as [|[q d0] l IH]; intros w.
  - exists w. now repeat split.
  - cbn [run_thens]. destruct (decide (q = p)) as [->|Hq].
    + assert (Hstep :
                (if ok then successCallback d0 r else errorCallback d0 r) w
                = Ok tt (log (if ok then EResolve d0 (AResponse r)
                              else EReject d0 (AResponse r))
                           (settle d0 (outcome ok r) w))).
      { now destruct ok. }
      rewrite (bind_Ok _ _ _ tt _ Hstep).
      destruct (IH (log (if ok then EResolve d0 (AResponse r)
                         else EReject d0 (AResponse r))
                      (settle d0 (outcome ok r) w)))
        as (w' & Hrun & Hb & Hn & Ht & Hh).
      exists w'. split; [exact Hrun|].
      assert (Hs : buffer (settle d0 (outcome ok r) w) = buffer w
                   /\ next_handle (settle d0 (outcome ok r) w) = next_handle w
                   /\ thens (settle d0 (outcome ok r) w) = thens w).
      { unfold settle. now destruct (handles w !! d0) as [[]|]. }
      destruct Hs as (Hsb & Hsn & Hst).
      split; [now rewrite Hb|]. split; [now rewrite Hn|]. split; [now rewrite Ht|].
      intros x Hx. apply not_elem_of_cons in Hx as [Hx1 Hx2].
      rewrite Hh by exact Hx2. cbn. apply settle_lookup_ne. congruence.
    + unfold bind at 1. cbn [ret].
      destruct (IH w) as (w' & Hrun & Hb & Hn & Ht & Hh).
      exists w'. repeat split; try assumption.
      intros x Hx. apply not_elem_of_cons in Hx as [_ Hx2]. now apply Hh.
Qed.

Lemma settle_frame d s w :
  buffer (settle d s w) = buffer w /\
  next_handle (settle d s w) = next_handle w /\
  thens (settle d s w) = thens w.
Proof. unfold settle. now destruct (handles w !! d) as [[]|]. Qed.

(** The answer of the transport to the [i]-th replay reaches the
    [i]-th entry's deferred. *)
Lemma issued_then_settles g l w i e ok r :
  l !! i = Some e ->
  deferred e < next_handle w ->
  handles w !! deferred e = Some Pending ->
  exists w'',
    transport_settles (next_handle w + i) ok r (set_buffer [] (issued g l w)) = Ok tt w'' /\
    handles w'' !! deferred e = Some (outcome ok r).
Proof.
  intros Hi Hd Hp.
  unfold transport_settles. apply (run_thens_settles _ ok r). left. split.
  - cbn [thens set_buffer]. now apply issued_thens_in.
  - rewrite settle_lookup_ne by lia.
    cbn [handles set_buffer]. now rewrite issued_handles_old.
Qed.







(** * Beyond the claims: drains that do not go through *)

Lemma bind_OutOfFuel {A B} (m : M A) (k : A -> M B) w :
  m w = OutOfFuel -> (a <- m ;; k a) w = OutOfFuel.
Proof. intros H. unfold bind. now rewrite H. Qed.



(** X9.  [loginConfirmed] (lines 74-78) with a [configUpdater] that is
    truthy but not a function: the default is not taken, the event is
    broadcast, and with at least one request parked the first call of
    [updater] throws a [TypeError]; no request is sent and the buffer
    keeps its entries. *)
Theorem loginConfirmed_with_truthy_non_function_throws http fuel data v w :
  truthy v = true ->
  buffer w <> [] ->
  loginConfirmed http (S fuel) data (NotFn v) w
  = Throw (TypeError "updater is not a function") (log (confirmed data) w).
Proof.
  intros Hv Hb. unfold loginConfirmed. cbn [callable_truthy]. rewrite Hv.
  unfold bind at 1. cbn [broadcast modify]. fold (confirmed data).
  unfold retryAll. apply bind_Throw.
  destruct (buffer w) as [|e l] eqn:Hbuf; [congruence|].
  rewrite (for_buffer_step _ _ _ _ e) by (cbn; now rewrite Hbuf).
  apply bind_Throw. unfold retryAll_body.
  rewrite (bind_Ok _ _ _ e (log (confirmed data) w))
    by (unfold buffer_at; cbn; now rewrite Hbuf).
  now apply bind_Throw.
Qed.

Lemma loginConfirmed_with_truthy_non_function_throws_witness :
  loginConfirmed angular_http 1 VNull (NotFn (VStr "token")) (parked [entry "/a" 0])
  = Throw (TypeError "updater is not a function")
      (log (confirmed VNull) (parked [entry "/a" 0])).
Proof.
  apply (loginConfirmed_with_truthy_non_function_throws angular_http 0 VNull
           (VStr "token") (parked [entry "/a" 0])).
  - reflexivity.
  - discriminate.
Defined.

(** X10.  The arguments of [retryHttpRequest(updater(buffer[i].config),
    buffer[i].deferred)] (line 198) are evaluated left to right.  An
    updater that calls [rejectAll] empties the buffer before
    [buffer[i].deferred] is read, so that read throws a [TypeError]:
    [retryAll] ends with it in the world [rejectAll] left, without
    having sent any request. *)
Theorem updater_that_cancels_makes_retryAll_throw http fuel fuel' reason w :
  buffer w <> [] ->
  (truthy reason = true -> length (buffer w) < fuel') ->
  exists w',
    rejectAll fuel' reason w = Ok tt w' /\
    buffer w' = [] /\
    retryAll http (S fuel) (cancelling_updater fuel' reason) w
    = Throw (TypeError "buffer[i] is undefined") w'.
Proof.
  intros Hb Hfuel.
  assert (Hrej : exists w', rejectAll fuel' reason w = Ok tt w' /\ buffer w' = []).
  { destruct (truthy reason) eqn:Ht.
    - eexists. split; [apply rejectAll_truthy; auto|reflexivity].
    - eexists. split; [now apply rejectAll_falsy|reflexivity]. }
  destruct Hrej as (w' & Hrej & Hb').
  exists w'. split; [exact Hrej|]. split; [exact Hb'|].
  unfold retryAll. apply bind_Throw.
  destruct (buffer w) as [|e l] eqn:Hbuf; [congruence|].
  rewrite (for_buffer_step _ _ _ _ e) by now rewrite Hbuf.
  apply bind_Throw. unfold retryAll_body.
  rewrite (bind_Ok _ _ _ e w) by (unfold buffer_at; now rewrite Hbuf).
  rewrite (bind_Ok _ _ _ (config e) w').
  2:{ cbn [call cancelling_updater]. now rewrite (bind_Ok _ _ _ tt w' Hrej). }
  apply bind_Throw. unfold buffer_at. now rewrite Hb'.
Qed.

Lemma updater_that_cancels_makes_retryAll_throw_witness :
  exists w',
    buffer w' = [] /\
    retryAll angular_http 3 (cancelling_updater 3 (VStr "stop"))
      (parked [entry "/a" 0; entry "/b" 1])
    = Throw (TypeError "buffer[i] is undefined") w'.
Proof.
  destruct (updater_that_cancels_makes_retryAll_throw angular_http 2 3 (VStr "stop")
              (parked [entry "/a" 0; entry "/b" 1]))
    as (w' & _ & H2 & H3).
  - discriminate.
  - intros _. cbn. lia.
  - exists w'. split; assumption.
Defined.

Lemma parking_loop_runs_out c' d' fuel :
  forall i w,
    i < length (buffer w) ->
    for_buffer fuel (retryAll_body angular_http (parking_updater c' d')) i w = OutOfFuel.
Proof.
  induction fuel as [|fuel IH]; intros i w Hi; [reflexivity|].
  destruct (lookup_lt_is_Some_2 (buffer w) i Hi) as [e He].
  rewrite (for_buffer_step _ _ _ _ e He).
  set (wa := set_buffer (buffer w ++ [{| config := c'; deferred := d' |}]) w).
  rewrite (bind_Ok _ _ _ tt (issue (config e) (deferred e) wa)).
  - apply IH. cbn. rewrite length_app. cbn. lia.
  - unfold retryAll_body.
    rewrite (bind_Ok _ _ _ e w) by (unfold buffer_at; now rewrite He).
    rewrite (bind_Ok _ _ _ (config e) wa) by reflexivity.
    rewrite (bind_Ok _ _ _ e wa); [reflexivity|].
    unfold buffer_at. cbn [buffer wa set_buffer].
    rewrite lookup_app_l by exact Hi. now rewrite He.
Qed.

(** X11.  The bound of the loop of [retryAll] is the live
    [buffer.length] (line 197).  With an updater that parks a request on
    every call the index never catches up with it: on a buffer that is
    not empty [retryAll] does not return, whatever the fuel. *)
Theorem retryAll_never_returns_when_updater_keeps_parking c' d' fuel w :
  buffer w <> [] ->
  retryAll angular_http fuel (parking_updater c' d') w = OutOfFuel.
Proof.
  intros Hb. unfold retryAll. apply bind_OutOfFuel.
  apply parking_loop_runs_out.
  destruct (buffer w); [congruence|cbn; lia].
Qed.

Lemma retryAll_never_returns_when_updater_keeps_parking_witness :
  retryAll angular_http 1000 (parking_updater (cfg "/again") 7) (parked [entry "/a" 0])
  = OutOfFuel.
Proof.
  apply (retryAll_never_returns_when_updater_keeps_parking (cfg "/again") 7 1000
           (parked [entry "/a" 0])).
  discriminate.
Defined.

(** * Beyond the claims: from parking to the answer *)





(** X13.  [responseError] then [loginCancelled] (lines 116-134, 86-89):
    the promise handed to the caller of a request that failed with 400
    or 401 is rejected with the reason of the cancellation, when that
    reason is truthy, and the buffer is empty afterwards. *)
Theorem parked_promise_is_rejected_by_cancel cl rejection w v w1 fuel data reason :
  responseErrorFilter cl rejection w = Ok v w1 ->
  truthy v = true ->
  truthy (prop (config_of rejection) "ignoreAuthModule") = false ->
  rej_status rejection = VNum 400 \/ rej_status rejection = VNum 401 ->
  truthy reason = true ->
  length (buffer w1) + 1 < fuel ->
  exists w3,
    (p <- responseError cl rejection ;; loginCancelled fuel data reason) w = Ok tt w3 /\
    handles w3 !! next_handle w1 = Some (Rejected (AVal reason)) /\
    buffer w3 = [].
Proof.
  intros Hf Hv Hig Hst Hr Hfuel.
  assert (Hlen : length (buffer (park rejection w1)) < fuel).
  { cbn. rewrite length_app. cbn. lia. }
  eexists. split.
  - rewrite (bind_Ok _ _ _ _ _ (responseError_park cl rejection w v w1 Hf Hv Hig Hst)).
    unfold loginCancelled.
    rewrite (bind_Ok _ _ _ tt _ (rejectAll_truthy _ _ _ Hr Hlen)).
    reflexivity.
  - split; [|reflexivity]. cbn [handles log set_buffer].
    apply (rejected_handles_in (AVal reason) (buffer (park rejection w1))
             (park rejection w1)
             {| config := config_of rejection; deferred := next_handle w1 |}).
    + cbn. apply elem_of_app. right. left.
    + cbn. apply lookup_insert_eq.
Qed.

Lemma parked_promise_is_rejected_by_cancel_witness :
  exists w3,
    (p <- responseError default_classifier (rejection_with 401 (cfg "/orders")) ;;
     loginCancelled 3 VNull (VStr "closed")) (parked [entry "/a" 0]) = Ok tt w3 /\
    handles w3 !! 1 = Some (Rejected (AVal (VStr "closed"))) /\
    buffer w3 = [].
Proof.
  apply (parked_promise_is_rejected_by_cancel default_classifier
           (rejection_with 401 (cfg "/orders")) (parked [entry "/a" 0])
           (VBool true) (parked [entry "/a" 0]) 3 VNull (VStr "closed")).
  - reflexivity.
  - reflexivity.
  - reflexivity.
  - right. reflexivity.
  - reflexivity.
  - cbn. lia.
Defined.

(** X14.  [responseError], [loginConfirmed], and the answer of the
    transport (lines 116-134, 74-78, 159-168): the request that failed
    with 400 or 401 is sent again last, with [updater] applied to its
    config, and the promise its caller was handed is settled with the
    answer to that replay: resolved with the response on success,
    rejected with it on failure. *)
Theorem parked_promise_gets_the_answer_of_the_replay
    cl rejection w v w1 (f : Config -> Config) fuel data ok response :
  responseErrorFilter cl rejection w = Ok v w1 ->
  truthy v = true ->
  truthy (prop (config_of rejection) "ignoreAuthModule") = false ->
  rej_status rejection = VNum 400 \/ rej_status rejection = VNum 401 ->
  length (buffer w1) + 1 < fuel ->
  exists w2 w3 w4,
    responseError cl rejection w = Ok (PromiseOf (next_handle w1)) w2 /\
    loginConfirmed angular_http fuel data (pure_fn f) w2 = Ok tt w3 /\
    trace w3 = trace w2 ++ confirmed data
                 :: map (fun e => EHttp (f (config e))) (buffer w1)
                 ++ [EHttp (f (config_of rejection))] /\
    transport_settles (S (next_handle w1) + length (buffer w1)) ok response w3
    = Ok tt w4 /\
    handles w4 !! next_handle w1 = Some (outcome ok response).
Proof.
  intros Hf Hv Hig Hst Hfuel.
  assert (Hlen : length (buffer (park rejection w1)) < fuel).
  { cbn. rewrite length_app. cbn. lia. }
  destruct (issued_then_settles (fun e => f (config e))
              (buffer (park rejection w1))
              (log (confirmed data) (park rejection w1))
              (length (buffer w1))
              {| config := config_of rejection; deferred := next_handle w1 |}
              ok response) as (w4 & Hset & Hh).
  { cbn. rewrite lookup_app_r by lia. now rewrite Nat.sub_diag. }
  { cbn. lia. }
  { cbn. apply lookup_insert_eq. }
  eexists. eexists. exists w4.
  split; [exact (responseError_park cl rejection w v w1 Hf Hv Hig Hst)|].
  split; [exact (loginConfirmed_pure data f fuel _ Hlen)|].
  split.
  - cbn [trace set_buffer]. rewrite issued_trace.
    cbn [trace log buffer park set_buffer set_next_handle set_handles].
    rewrite map_app. cbn [map]. rewrite <- !app_assoc. reflexivity.
  - split; [exact Hset|exact Hh].
Qed.

Lemma parked_promise_gets_the_answer_of_the_replay_witness :
  let token := fun c : Config => <[ "token" := VStr "t0k" ]> c in
  exists w2 w3 w4,
    responseError default_classifier (rejection_with 401 (cfg "/orders")) empty_world
    = Ok (PromiseOf 0) w2 /\
    loginConfirmed angular_http 2 VNull (pure_fn token) w2 = Ok tt w3 /\
    transport_settles 1 true (rejection_with 200 (cfg "/orders")) w3 = Ok tt w4 /\
    handles w4 !! 0 = Some (Resolved (AResponse (rejection_with 200 (cfg "/orders")))).
Proof.
  intros token.
  destruct (parked_promise_gets_the_answer_of_the_replay default_classifier
              (rejection_with 401 (cfg "/orders")) empty_world (VBool true)
              empty_world token 2 VNull true (rejection_with 200 (cfg "/orders")))
    as (w2 & w3 & w4 & H1 & H2 & _ & H4 & H5).
  - reflexivity.
  - reflexivity.
  - reflexivity.
  - right. reflexivity.
  - cbn. lia.
  - exists w2, w3, w4. repeat split; assumption.
Defined.

(** * Beyond the claims: what every operation keeps *)

Lemma well_formed_defer_append c w1 :
  well_formed w1 ->
  well_formed
    (set_buffer (buffer w1 ++ [{| config := c; deferred := next_handle w1 |}])
       (set_next_handle (S (next_handle w1))
          (set_handles (<[next_handle w1 := Pending]> (handles w1)) w1))).
Proof.
  intros [H1 H2]. split; cbn.
  - apply Forall_app. split.
    + eapply Forall_impl; [exact H1|]. cbn. intros e [Hp Hlt]. split; [|lia].
      rewrite lookup_insert_ne by lia. exact Hp.
    + constructor; [|constructor]. cbn. split; [apply lookup_insert_eq|lia].
  - eapply Forall_impl; [exact H2|]. cbn. intros pd (Ha & Hb & Hc).
    split; [lia|]. split; [lia|].
    apply Forall_app. split; [exact Hc|].
    constructor; [|constructor]. cbn. lia.
Qed.

(** X15.  [responseError] (lines 116-142) keeps the buffer sound: if,
    when the filter has answered, every buffered deferred is pending and
    none of them is tied to a request in flight, the same holds when
    [responseError] returns, whichever branch it took. *)
Theorem responseError_keeps_the_buffer_well_formed cl rejection w v w1 :
  responseErrorFilter cl rejection w = Ok v w1 ->
  well_formed w1 ->
  exists p w2, responseError cl rejection w = Ok p w2 /\ well_formed w2.
Proof.
  intros Hf Hwf.
  unfold responseError. rewrite (bind_Ok _ _ _ _ _ Hf).
  destruct (truthy v); cbn [negb]; [|now eexists; eexists].
  destruct (truthy (prop (config_of rejection) "ignoreAuthModule"));
    cbn [negb]; [now eexists; eexists|].
  repeat case_decide; eexists; eexists; (split; [reflexivity|]).
  - exact (well_formed_defer_append (config_of rejection) w1 Hwf).
  - exact (well_formed_defer_append (config_of rejection) w1 Hwf).
  - exact Hwf.
  - exact Hwf.
Qed.

Lemma responseError_keeps_the_buffer_well_formed_witness :
  exists p w2,
    responseError default_classifier (rejection_with 401 (cfg "/d")) midway = Ok p w2 /\
    well_formed w2.
Proof.
  apply (responseError_keeps_the_buffer_well_formed default_classifier
           (rejection_with 401 (cfg "/d")) midway (VBool true) midway).
  - reflexivity.
  - apply (bool_decide_unpack _). vm_compute. exact I.
Defined.

Lemma rejected_frame a l w :
  next_handle (rejected a l w) = next_handle w /\
  thens (rejected a l w) = thens w.
Proof.
  revert w. induction l as [|e l IH]; intros w; [now split|].
  rewrite rejected_cons. destruct (IH (rejected_one a w e)) as [-> ->].
  unfold rejected_one. cbn. destruct (settle_frame (deferred e) (Rejected a) w)
    as (_ & Hn & Ht).
  now split.
Qed.

Lemma well_formed_drained w w' :
  buffer w' = [] ->
  next_handle w <= next_handle w' ->
  (forall pd, pd ∈ thens w' -> pd.1 < next_handle w' /\ pd.2 < next_handle w') ->
  well_formed w'.
Proof.
  intros Hb Hn Ht. split; rewrite Hb; [constructor|].
  apply Forall_forall. intros pd Hpd.
  destruct (Ht pd Hpd) as [Ha Hc]. repeat split; [exact Ha|exact Hc|constructor].
Qed.

(** X16.  [loginConfirmed] and [loginCancelled] (lines 74-89) keep the
    buffer sound: from a sound world both return a sound world with an
    empty buffer, in which every pair attached by the replay names a
    promise and a deferred that exist. *)
Theorem drains_keep_the_buffer_well_formed (f : Config -> Config) fuel data reason w :
  well_formed w ->
  length (buffer w) < fuel ->
  (exists w', loginConfirmed angular_http fuel data (pure_fn f) w = Ok tt w' /\
              buffer w' = [] /\ well_formed w') /\
  (exists w', loginCancelled fuel data reason w = Ok tt w' /\
              buffer w' = [] /\ well_formed w').
Proof.
  intros [H1 H2] Hf.
  rewrite Forall_forall in H1. rewrite Forall_forall in H2.
  split.
  - eexists. split; [now apply loginConfirmed_pure|]. split; [reflexivity|].
    apply (well_formed_drained w); [reflexivity| |].
    + cbn [next_handle set_buffer]. rewrite issued_next_handle. cbn. lia.
    + intros pd Hpd. cbn [thens next_handle set_buffer] in *.
      rewrite issued_next_handle. cbn [next_handle log].
      apply issued_thens_elem in Hpd as [Hpd|(i & e & Hi & ->)].
      * cbn [thens log] in Hpd. destruct (H2 pd Hpd) as (Ha & Hb & _). lia.
      * cbn [buffer log] in Hi. cbn [next_handle log fst snd].
        pose proof (lookup_lt_Some _ _ _ Hi) as Hlt.
        destruct (H1 e (list_elem_of_lookup_2 _ _ _ Hi)) as [_ Hd]. lia.
  - assert (Hth : forall pd, pd ∈ thens w -> pd.1 < next_handle w /\ pd.2 < next_handle w).
    { intros pd Hpd. destruct (H2 pd Hpd) as (Ha & Hb & _). now split. }
    destruct (truthy reason) eqn:Ht.
    + eexists. split.
      * unfold loginCancelled.
        rewrite (bind_Ok _ _ _ tt _ (rejectAll_truthy _ _ _ Ht Hf)). reflexivity.
      * split; [reflexivity|].
        destruct (rejected_frame (AVal reason) (buffer w) w) as [Hn Hthens].
        apply (well_formed_drained w); [reflexivity| |].
        -- cbn. rewrite Hn. lia.
        -- intros pd Hpd. cbn in Hpd |- *. rewrite Hn. rewrite Hthens in Hpd.
           now apply Hth.
    + eexists. split; [now apply loginCancelled_falsy|]. split; [reflexivity|].
      apply (well_formed_drained w); [reflexivity|cbn; lia|].
      intros pd Hpd. now apply Hth.
Qed.

Lemma drains_keep_the_buffer_well_formed_witness :
  (exists w', loginConfirmed angular_http 2 VNull (pure_fn (fun c => c)) midway = Ok tt w' /\
              buffer w' = [] /\ well_formed w') /\
  (exists w', loginCancelled 2 VNull (VStr "no") midway = Ok tt w' /\
              buffer w' = [] /\ well_formed w').
Proof.
  apply (drains_keep_the_buffer_well_formed (fun c => c) 2 VNull (VStr "no") midway).
  - apply (bool_decide_unpack _). vm_compute. exact I.
  - cbn. lia.
Defined.

(** X17.  The answer of the transport (lines 159-168) keeps the buffer
    sound: when a transport promise that carries callbacks settles, the
    callbacks reach only deferreds of replayed requests, so in a sound
    world every buffered deferred is still pending afterwards, and the
    buffer is what it was. *)
Theorem transport_answer_keeps_the_buffer_well_formed p d ok response w :
  well_formed w ->
  (p, d) ∈ thens w ->
  exists w',
    transport_settles p ok response w = Ok tt w' /\
    buffer w' = buffer w /\
    well_formed w'.
Proof.
  intros [H1 H2] Hpd.
  rewrite Forall_forall in H1. rewrite Forall_forall in H2.
  unfold transport_settles.
  destruct (settle_frame p (outcome ok response) w) as (Hsb & Hsn & Hst).
  destruct (run_thens_frame p ok response (thens w) (settle p (outcome ok response) w))
    as (w' & Hrun & Hb & Hn & Ht & Hh).
  exists w'. split; [exact Hrun|]. split; [now rewrite Hb|].
  unfold well_formed. rewrite Hb, Hn, Ht, Hsb, Hsn, Hst.
  split; apply Forall_forall.
  - intros e He. destruct (H1 e He) as [Hp Hlt]. split; [|exact Hlt].
    rewrite Hh.
    + rewrite settle_lookup_ne; [exact Hp|].
      destruct (H2 (p, d) Hpd) as (_ & _ & Hdis).
      rewrite Forall_forall in Hdis. destruct (Hdis e He) as [Hne _]. cbn in Hne.
      congruence.
    + intros Hin. destruct (H2 _ Hin) as (_ & _ & Hdis).
      rewrite Forall_forall in Hdis. destruct (Hdis e He) as [_ Hne]. cbn in Hne.
      congruence.
  - intros pd Hin. exact (H2 pd Hin).
Qed.

Lemma transport_answer_keeps_the_buffer_well_formed_witness :
  exists w',
    transport_settles 1 false (rejection_with 500 (cfg "/a")) midway = Ok tt w' /\
    buffer w' = [entry "/c" 2] /\
    well_formed w'.
Proof.
  apply (transport_answer_keeps_the_buffer_well_formed 1 0 false
           (rejection_with 500 (cfg "/a")) midway).
  - apply (bool_decide_unpack _). vm_compute. exact I.
  - left.
Defined.

(** X18.  [loginCancelled] (lines 86-89) with a truthy reason: [reject]
    is called with the reason on the deferred of every parked request,
    in the order of insertion, and the event is broadcast after the last
    of these calls; every parked handle that was pending is rejected
    with the reason, every handle that is not parked keeps its state,
    and the buffer is empty. *)
Theorem cancel_with_reason_rejects_then_broadcasts fuel data reason w :
  truthy reason = true ->
  length (buffer w) < fuel ->
  exists w',
    loginCancelled fuel data reason w = Ok tt w' /\
    buffer w' = [] /\
    trace w' = trace w
               ++ map (fun e => EReject (deferred e) (AVal reason)) (buffer w)
               ++ [cancelled data] /\
    (forall e, e ∈ buffer w -> handles w !! deferred e = Some Pending ->
               handles w' !! deferred e = Some (Rejected (AVal reason))) /\
    (forall d, d ∉ map deferred (buffer w) -> handles w' !! d = handles w !! d).
Proof.
  intros Ht Hf. eexists. split.
  - unfold loginCancelled.
    rewrite (bind_Ok _ _ _ tt _ (rejectAll_truthy _ _ _ Ht Hf)). reflexivity.
  - cbn [buffer trace handles log set_buffer].
    split; [reflexivity|]. split; [|split].
    + rewrite rejected_trace. now rewrite <- app_assoc.
    + intros e He Hp. now apply rejected_handles_in.
    + intros d Hd. now apply rejected_handles_other.
Qed.

Lemma cancel_with_reason_rejects_then_broadcasts_witness :
  exists w',
    loginCancelled 3 (VStr "bye") (VStr "closed") (parked [entry "/a" 0; entry "/b" 1])
    = Ok tt w' /\
    buffer w' = [] /\
    trace w' = [EReject 0 (AVal (VStr "closed")); EReject 1 (AVal (VStr "closed"));
                cancelled (VStr "bye")].
Proof.
  destruct (cancel_with_reason_rejects_then_broadcasts 3 (VStr "bye") (VStr "closed")
              (parked [entry "/a" 0; entry "/b" 1]))
    as (w' & H1 & H2 & H3 & _).
  - reflexivity.
  - cbn. lia.
  - exists w'. repeat split; assumption.
Defined.

(** C3 as written fails for some calls of [loginConfirmed].  With two
    requests parked, an updater that parks a third one while it runs
    makes three transport requests, not two; a [configUpdater] that is
    truthy but not a function makes none, throws after the broadcast and
    leaves both entries in the buffer; an updater that throws at the
    second entry makes one request and leaves both entries in the
    buffer. *)
Lemma loginConfirmed_not_always_one_request_per_entry :
  (exists w',
     loginConfirmed angular_http 5 VNull
       (appending_updater (cfg "/a") (entry "/c" 2))
       (parked [entry "/a" 0; entry "/b" 1]) = Ok tt w' /\
     trace w' = [confirmed VNull; EHttp (cfg "/a"); EHttp (cfg "/b"); EHttp (cfg "/c")]) /\
  (exists w',
     loginConfirmed angular_http 5 VNull (NotFn (VStr "token"))
       (parked [entry "/a" 0; entry "/b" 1])
     = Throw (TypeError "updater is not a function") w' /\
     trace w' = [confirmed VNull] /\
     buffer w' = [entry "/a" 0; entry "/b" 1]) /\
  (exists w',
     loginConfirmed angular_http 5 VNull
       (Fn (fun c => if decide (c = cfg "/b") then throw (Thrown (VStr "no token"))
                     else ret c))
       (parked [entry "/a" 0; entry "/b" 1])
     = Throw (Thrown (VStr "no token")) w' /\
     trace w' = [confirmed VNull; EHttp (cfg "/a")] /\
     buffer w' = [entry "/a" 0; entry "/b" 1]).
Proof.
  split; [|split].
  - eexists. split; [vm_compute; reflexivity|reflexivity].
  - eexists. split; [vm_compute; reflexivity|]. split; reflexivity.
  - eexists. split; [vm_compute; reflexivity|]. split; reflexivity.
Qed.
